(** * frp-pong: the driver/component runtime, its state loop and the
    drawing-operation algebra (src/index.ts, the [impl] half)

  The TypeScript sources are embedded as Rocq functions.  JavaScript
  objects used as records are finite maps keyed by strings, the driver
  set is an ordered list of entries (the order of [Object.keys]), a
  generator is the list of the values it yields, and a call that can
  throw returns a [Result]. *)

From stdpp Require Import gmap strings list fin_maps sorting.

(** ** Thrown values *)

Inductive JsError : Type :=
| TypeError (message : string).

Inductive Result (A : Type) : Type :=
| Ok (value : A)
| Throw (error : JsError).

Arguments Ok {A} value.
Arguments Throw {A} error.

Definition returns {A : Type} (r : Result A) : Prop :=
match r with Ok _ => True | Throw _ => False end.

Definition throws {A : Type} (r : Result A) : Prop :=
match r with Ok _ => False | Throw _ => True end.

(** [Array.prototype.reduce] called with a callback and no initial value:
  the first element seeds the accumulator (the callback is not called
  for it), an empty array throws a [TypeError]. *)
Definition reduce {A : Type} (callback : A -> A -> A) (array : list A) : Result A :=
match array with
| [] => Throw (TypeError "Reduce of empty array with no initial value"%string)
| first :: rest => Ok (fold_left callback rest first)
end.

(** ** The drawing-operation algebra *)

Module Drawing.

Section Algebra.
(** [number] stands for the JavaScript number type and [style] for
    [string | CanvasGradient | CanvasPattern]; the algebra only stores
    them. *)
Context {number style : Type}.

Inductive DrawOp : Type :=
| FillRect (x y width height : number)
| FillStyle (s : style)
| BeginPath
| ClearRect (x y width height : number)
| Arc (x y r sAngle eAngle : number) (anticlockwise : option bool)
| Stroke
| Fill
| StrokeStyle (s : style).

Inductive Draw : Type :=
| And (first second : Draw)
| Op (op : DrawOp).

(** The [gen] generator methods: a primitive yields itself, [And]
    delegates to [first] and then to [second]. *)
Fixpoint gen (d : Draw) : list DrawOp :=
  match d with
  | And first second => gen first ++ gen second
  | Op op => [op]
  end.

Definition and (first second : Draw) : Draw := And first second.

Definition all (draws : list Draw) : Result Draw := reduce and draws.

Definition fillRect (x y width height : number) : Draw := Op (FillRect x y width height).
Definition fillStyle (s : style) : Draw := Op (FillStyle s).
Definition strokeStyle (s : style) : Draw := Op (StrokeStyle s).
Definition beginPath : Draw := Op BeginPath.
Definition clearRect (x y width height : number) : Draw := Op (ClearRect x y width height).
Definition arc (x y r sAngle eAngle : number) (anticlockwise : option bool) : Draw :=
  Op (Arc x y r sAngle eAngle anticlockwise).
Definition stroke : Draw := Op Stroke.
Definition fill : Draw := Op Fill.

(** Calls made on the 2d rendering context. *)
Inductive CtxCall : Type :=
| CtxBeginPath
| CtxClearRect (x y width height : number)
| CtxFillRect (x y width height : number)
| CtxSetFillStyle (s : style)
| CtxArc (x y r sAngle eAngle : number) (anticlockwise : option bool)
| CtxFill
| CtxStroke.

(** [drawImpl]: the [switch] over the tag; a tag without a [case] falls
    out of the [switch] and nothing is called. *)
Definition drawImpl (op : DrawOp) : list CtxCall :=
  match op with
  | BeginPath => [CtxBeginPath]
  | ClearRect x y w h => [CtxClearRect x y w h]
  | FillRect x y w h => [CtxFillRect x y w h]
  | FillStyle s => [CtxSetFillStyle s]
  | Arc x y r sa ea ac => [CtxArc x y r sa ea ac]
  | Fill => [CtxFill]
  | Stroke => [CtxStroke]
  | StrokeStyle _ => []
  end.

(** [draw]: the [while] loop pulls the generator until it is done and
    hands every yielded op to [drawImpl]. *)
Definition draw (d : Draw) : list CtxCall :=
  flat_map drawImpl (gen d).

End Algebra.

Arguments DrawOp : clear implicits.
Arguments Draw : clear implicits.
Arguments CtxCall : clear implicits.

End Drawing.

(** ** Key tracking of the Pong component (src/index.ts) *)

Module Keys.

Record KeyboardEvent : Type := { key : string }.

(** [A.filter((k) => k !== e.key)] *)
Definition keyUp (e : KeyboardEvent) (as_ : list string) : list string :=
  List.filter (fun k => negb (String.eqb k (key e))) as_.

(** [A.snoc(keyUp(e)(as), e.key)] *)
Definition keyDown (e : KeyboardEvent) (as_ : list string) : list string :=
  keyUp e as_ ++ [key e].

End Keys.

(** ** The stream substrate (rxjs), as far as the sources use it

    An [Observable] is described by what one subscriber observes of it
    over a run: the values it is sent, in order, and how the stream ends
    ([Open]: no terminal notification is ever sent). *)

Module Rx.

Inductive Ending : Type := Open | Completed | Errored.

Record Observable (A : Type) : Type := mkObservable {
  emits : list A;
  ending : Ending
}.

Arguments mkObservable {A} emits ending.
Arguments emits {A} o.
Arguments ending {A} o.

(** [NEVER]: no value, no error, no completion. *)
Definition NEVER {A : Type} : Observable A := mkObservable [] Open.

(** [of(x)] (written [of_], [of] being reserved): the value, then completion. *)
Definition of_ {A : Type} (x : A) : Observable A := mkObservable [x] Completed.

(** [source.pipe(concat(next))]: [next] is subscribed once [source] has
    completed. *)
Definition concat {A : Type} (source next : Observable A) : Observable A :=
  match ending source with
  | Completed => mkObservable (emits source ++ emits next) (ending next)
  | Open | Errored => source
  end.

(** The running values of [scan(accumulator, seed)]: one per incoming
    value, the seed itself is not emitted. *)
Fixpoint scan_values {A B : Type} (accumulator : B -> A -> B) (seed : B) (xs : list A) : list B :=
  match xs with
  | [] => []
  | x :: rest =>
      let next := accumulator seed x in
      next :: scan_values accumulator next rest
  end.

Definition scan {A B : Type} (accumulator : B -> A -> B) (seed : B) (source : Observable A) : Observable B :=
  mkObservable (scan_values accumulator seed (emits source)) (ending source).

Definition map {A B : Type} (project : A -> B) (source : Observable A) : Observable B :=
  mkObservable (List.map project (emits source)) (ending source).

(** [map] with a projection that reads the outside world: [project n] is
    what the projection returns at the [n]-th value of the source. *)
Definition map_reading {A B : Type} (project : nat -> A -> B) (source : Observable A) : Observable B :=
  mkObservable (imap project (emits source)) (ending source).

(** [distinctUntilChanged(compare)]: a value passes unless [compare] holds
    between the last value that passed and it. *)
Fixpoint distinct_values {A : Type} (compare : A -> A -> bool) (last_passed : option A) (xs : list A) : list A :=
  match xs with
  | [] => []
  | x :: rest =>
      match last_passed with
      | Some k =>
          if compare k x then distinct_values compare last_passed rest
          else x :: distinct_values compare (Some x) rest
      | None => x :: distinct_values compare (Some x) rest
      end
  end.

Definition distinctUntilChanged {A : Type} (compare : A -> A -> bool) (source : Observable A) : Observable A :=
  mkObservable (distinct_values compare None (emits source)) (ending source).

(** A [Subject] created with [new Subject()]; what it broadcasts is
    whatever it is later subscribed to. *)
Inductive Subject (A : Type) : Type := NewSubject.
Arguments NewSubject {A}.

(** An element of the array [sunk] of [run]: the stream a receive
    function returned for the stream it was handed, or whatever it
    returned when it was handed the member of [Object.prototype] of the
    given name, which is no stream. *)
Inductive Sunk : Type :=
| Signal (done : Observable unit)
| ReturnedFor (member : string).

(** The handle of [from(sunk).pipe(mergeAll()).subscribe()]: [mergeAll]
    subscribes to every element of the array. *)
Record Subscription : Type := { subscribed : list Sunk }.

(** *** Streams with emission times

    The operators of the canvas sink depend on when values arrive; there
    a stream carries each value with its time in milliseconds. *)
Definition Time : Type := Z.
Definition Timed (A : Type) : Type := Observable (Time * A).

(** [observeOn(scheduler)]: every notification is re-emitted when the
    scheduler runs it; [runs_at t] is that time for a notification that
    arrived at [t].  All of them are re-emitted, in order. *)
Definition observeOn {A : Type} (runs_at : Time -> Time) (source : Timed A) : Timed A :=
  map (fun e => (runs_at (fst e), snd e)) source.

(** [throttleTime(duration)] with its default configuration (leading
    edge, no trailing edge): a value that arrives while the stream is not
    throttled is emitted and throttles the stream until [duration]
    later; a value that arrives while it is throttled is discarded. *)
Fixpoint throttle_values {A : Type} (duration : Time) (throttled_until : option Time)
  (xs : list (Time * A)) : list (Time * A) :=
  match xs with
  | [] => []
  | (t, x) :: rest =>
      match throttled_until with
      | Some u =>
          if (t <? u)%Z then throttle_values duration throttled_until rest
          else (t, x) :: throttle_values duration (Some (t + duration)%Z) rest
      | None => (t, x) :: throttle_values duration (Some (t + duration)%Z) rest
      end
  end.

Definition throttleTime {A : Type} (duration : Time) (source : Timed A) : Timed A :=
  mkObservable (throttle_values duration None (emits source)) (ending source).

End Rx.

(** ** Drivers, components and the runner *)

Module Runtime.
Import Rx.

Inductive DriverType : Type := SinkOnly | SourceOnly | Full.

Inductive Driver (I O : Type) : Type :=
| SinkDriver (receive : Observable O -> Observable unit)
| SourceDriver (provide : I)
| FullDriver (provide : I) (receive : Observable O -> Observable unit).

Arguments SinkDriver {I O} receive.
Arguments SourceDriver {I O} provide.
Arguments FullDriver {I O} provide receive.

Definition tag {I O : Type} (drv : Driver I O) : DriverType :=
  match drv with
  | SinkDriver _ => SinkOnly
  | SourceDriver _ => SourceOnly
  | FullDriver _ _ => Full
  end.

Definition sinkDriver {I O : Type} (receive : Observable O -> Observable unit) : Driver I O :=
  SinkDriver receive.

Definition sourceDriver {I O : Type} (provide : I) : Driver I O :=
  SourceDriver provide.


(** [drv.provide], present on the SourceOnly and Full variants. *)
Definition provide_of {I O : Type} (drv : Driver I O) : option I :=
  match drv with
  | SinkDriver _ => None
  | SourceDriver provide => Some provide
  | FullDriver provide _ => Some provide
  end.

(** [drv.receive], present on the SinkOnly and Full variants. *)
Definition receive_of {I O : Type} (drv : Driver I O) : option (Observable O -> Observable unit) :=
  match drv with
  | SinkDriver receive => Some receive
  | SourceDriver _ => None
  | FullDriver _ receive => Some receive
  end.

Definition Component (I O : Type) : Type := I -> O.

Definition Reducer (S : Type) : Type := S -> S.

Section Run.
Context {I O : Type}.

(** The driver set: its entries in the order of [Object.keys]. *)
Definition Drivers : Type := list (string * Driver I O).

(** The names every object literal inherits from [Object.prototype]. *)
Definition Object_prototype : list string :=
  ["constructor"; "__defineGetter__"; "__defineSetter__"; "hasOwnProperty";
   "__lookupGetter__"; "__lookupSetter__"; "isPrototypeOf"; "propertyIsEnumerable";
   "toString"; "valueOf"; "__proto__"; "toLocaleString"]%string.

(** The value of the property read [sinks[key]] on the record a component
    returned: the stream the record holds under the name, else the member
    the record inherits under it, else [undefined]. *)
Inductive Read : Type :=
| Own (stream : Observable O)
| Inherited (member : string)
| Undefined.

Definition get (sinks : gmap string (Observable O)) (key : string) : Read :=
  match sinks !! key with
  | Some stream => Own stream
  | None => if bool_decide (key ∈ Object_prototype) then Inherited key else Undefined
  end.

(** What a receive function is handed. *)
Inductive Passed : Type :=
| Stream (out : Observable O)
| NotAStream (member : string).

(** [value || NEVER]: a stream is an object and the members of
    [Object.prototype] are functions or objects, all of them truthy;
    [undefined] is falsy. *)
Definition or_NEVER (value : Read) : Passed :=
  match value with
  | Own stream => Stream stream
  | Inherited member => NotAStream member
  | Undefined => Stream NEVER
  end.

(** [drv.receive(out)]: on a stream, what the receive function returns;
    on anything else, a value [run] knows nothing about. *)
Definition receive_result (receive : Observable O -> Observable unit) (out : Passed) : Sunk :=
  match out with
  | Stream stream => Signal (receive stream)
  | NotAStream member => ReturnedFor member
  end.

(** The calls [run] makes into code it was handed. *)
Inductive Call : Type :=
| CallComponent (sources : gmap string I)
| CallReceive (key : string) (out : Passed).

(** A computation together with the calls it made, oldest first. *)
Definition Traced (A : Type) : Type := (A * list Call)%type.

Definition ret {A : Type} (a : A) : Traced A := (a, []).

Definition bind {A B : Type} (m : Traced A) (k : A -> Traced B) : Traced B :=
  let '(a, calls) := m in
  let '(b, calls') := k a in
  (b, calls ++ calls').

Definition call {A : Type} (c : Call) (result : A) : Traced A := (result, [c]).

(** First [forEach]: [sources[key] = drv.provide] for the SourceOnly and
    Full drivers. *)
Definition collect_step (sources : gmap string I) (entry : string * Driver I O) : gmap string I :=
  let '(key, drv) := entry in
  match tag drv, provide_of drv with
  | (SourceOnly | Full), Some provide => <[key := provide]> sources
  | _, _ => sources
  end.

Definition collect_sources (drivers : Drivers) : gmap string I :=
  fold_left collect_step drivers ∅.

(** Second [forEach]: [sunk.push(drv.receive(sinks[key] || NEVER))] for
    the SinkOnly and Full drivers. *)
Definition feed_step (sinks : gmap string (Observable O)) (sunk : Traced (list Sunk))
  (entry : string * Driver I O) : Traced (list Sunk) :=
  let '(key, drv) := entry in
  match tag drv, receive_of drv with
  | (SinkOnly | Full), Some receive =>
      bind sunk (fun pushed =>
      let out := or_NEVER (get sinks key) in
      bind (call (CallReceive key out) (receive_result receive out)) (fun done =>
      ret (pushed ++ [done])))
  | _, _ => sunk
  end.

Definition feed_sinks (drivers : Drivers) (sinks : gmap string (Observable O)) : Traced (list Sunk) :=
  fold_left (feed_step sinks) drivers (ret []).

Definition run (drivers : Drivers) (component : Component (gmap string I) (gmap string (Observable O)))
  : Traced Subscription :=
  let sources := collect_sources drivers in
  bind (call (CallComponent sources) (component sources)) (fun sinks =>
  bind (feed_sinks drivers sinks) (fun sunk =>
  ret {| subscribed := sunk |})).

(** How often the component was invoked in a trace, and with what. *)
Definition component_calls (calls : list Call) : list (gmap string I) :=
  omap (fun c => match c with CallComponent sources => Some sources | CallReceive _ _ => None end) calls.

Definition receive_calls (calls : list Call) : list (string * Passed) :=
  omap (fun c => match c with CallComponent _ => None | CallReceive key out => Some (key, out) end) calls.

(** The drivers of a set that expose a capability (SourceOnly, Full) and
    those that accept output (SinkOnly, Full). *)
Definition exposes_capability (drv : Driver I O) : bool :=
  match tag drv with SourceOnly | Full => true | SinkOnly => false end.

Definition accepts_output (drv : Driver I O) : bool :=
  match tag drv with SinkOnly | Full => true | SourceOnly => false end.

(** The sinks of a driver set, in key order: name and receive function. *)
Definition sink_entries (drivers : Drivers) : list (string * (Observable O -> Observable unit)) :=
  omap (fun entry => pair (fst entry) <$> receive_of (snd entry)) drivers.

End Run.

Arguments Drivers : clear implicits.
Arguments Call : clear implicits.
Arguments Read : clear implicits.
Arguments Passed : clear implicits.
Arguments Inherited {O} member.
Arguments Undefined {O}.
Arguments NotAStream {O} member.

Section Stateful.
Context {S I O : Type}.

(** A field of the input record handed to the inner component: a
    capability of the outside, or the loopback subject under [state]. *)
Inductive SourceVal : Type :=
| Provided (capability : I)
| StateIn (loopback : Subject S).

(** A field of the inner component's output record: the stream of
    reducers under [state], or any other stream. *)
Inductive SinkVal : Type :=
| StateOut (reducers : Observable (Reducer S))
| Out (stream : Observable O).

(** [of(s => s).pipe(concat(state)).pipe(scan((s, f) => f(s), initial))] *)
Definition reduced (initial : S) (state : Observable (Reducer S)) : Observable S :=
  scan (fun s f => f s) initial (concat (of_ (fun s => s)) state).

(** What one invocation of the wrapped component leaves behind: the
    record it returns and the stream the loopback subject was subscribed
    to. *)
Record Wired : Type := {
  returned : gmap string SinkVal;
  loopback_feed : Observable S
}.

(** [stateful(initial, component)].  The bound
    [O extends { state: Observable<Reducer<S>> }] makes [sinks.state] a
    stream of reducers; on a record without one the result is [None]. *)
Definition stateful (initial : S)
  (component : Component (gmap string SourceVal) (gmap string SinkVal))
  : Component (gmap string SourceVal) (option Wired) :=
  fun inputs =>
    let loopback := NewSubject in
    let sinks := component (<["state"%string := StateIn loopback]> inputs) in
    match sinks !! "state"%string with
    | Some (StateOut state) =>
        Some {| returned := delete "state"%string sinks;
                loopback_feed := reduced initial state |}
    | Some (Out _) | None => None
    end.

End Stateful.

Arguments SourceVal : clear implicits.
Arguments SinkVal : clear implicits.
Arguments Wired : clear implicits.

End Runtime.

(** ** The DOM driver *)

Module Dom.
Import Rx Runtime.

(** A computation together with the lines it sent to [console.warn]. *)
Definition Console (A : Type) : Type := (A * list string)%type.

Section Driver.
Context {number : Type} `{EqDecision number}.
Context {Node MouseEvent : Type}.

Record Size2d : Type := { width : number; height : number }.

Record DOM : Type := {
  mousemove : string -> Observable MouseEvent;
  keydown : string -> Observable Keys.KeyboardEvent;
  keyup : string -> Observable Keys.KeyboardEvent;
  keypress : string -> Observable Keys.KeyboardEvent;
  dimensions : forall U : Type, string -> Observable U -> Console (Observable Size2d)
}.

(** The page the driver runs against. *)
Section Page.
(** [document.querySelector]: the first matching element, [None] for
    [null]. *)
Variable querySelector : string -> option Node.
(** [fromEvent(node, event)]: the events of that name dispatched on the
    node. *)
Variable fromEvent : forall E : Type, Node -> string -> Observable E.
(** [node.clientWidth] and [node.clientHeight] as read when the [n]-th
    sample arrives. *)
Variable clientWidth clientHeight : Node -> nat -> number.

Definition attach (E : Type) (selector : string) (event : string) : Observable E :=
  match querySelector selector with
  | Some node => fromEvent E node event
  | None => NEVER
  end.

Definition same_size (x y : Size2d) : bool :=
  bool_decide (width x = width y) && bool_decide (height x = height y).

Definition dimensions_impl (U : Type) (selector : string) (sampleInterval : Observable U)
  : Console (Observable Size2d) :=
  match querySelector selector with
  | Some node =>
      (distinctUntilChanged same_size
         (map_reading (fun n _ => {| width := clientWidth node n; height := clientHeight node n |})
            sampleInterval),
       [])
  | None => (NEVER, ["invalid dimensions selector"%string])
  end.

(** The object literal passed to [sourceDriver]. *)
Definition dom_capability : DOM := {|
  mousemove := fun selector => attach MouseEvent selector "mousemove";
  keydown := fun selector => attach Keys.KeyboardEvent selector "keydown";
  keyup := fun selector => attach Keys.KeyboardEvent selector "keyup";
  keypress := fun selector => attach Keys.KeyboardEvent selector "keypress";
  dimensions := dimensions_impl
|}.

Definition makeDOMDriver {O : Type} : Driver DOM O :=
  sourceDriver dom_capability.

End Page.
End Driver.

Arguments Size2d : clear implicits.
Arguments DOM : clear implicits.

(** A stream on which a subscriber never sees a value, an error or a
    completion. *)
Definition silent {A : Type} (o : Observable A) : Prop :=
  emits o = [] /\ ending o = Open.

End Dom.

(** ** The canvas driver *)

Module Canvas.
Import Rx Runtime Drawing.

Section Sink.
Context {number style : Type}.
(** [animationFrame t]: when the animation-frame scheduler runs an action
    that was scheduled at [t]. *)
Variable animationFrame : Time -> Time.

(** The Draws that reach [draw]:
    [draws.pipe(observeOn(animationFrameScheduler)).pipe(throttleTime(1))] *)
Definition rendered (draws : Timed (Draw number style)) : Timed (Draw number style) :=
  throttleTime 1%Z (observeOn animationFrame draws).

(** The calls that [map((d) => draw(el, d))] makes on the canvas [el],
    frame by frame. *)
Definition canvas_calls (draws : Timed (Draw number style)) : Timed (list (CtxCall number style)) :=
  map (fun e => (fst e, draw (snd e))) (rendered draws).

(** [makeCanvasDriver(el)]: the sink whose stream of [void] has one value
    per call of [draw]. *)
Definition makeCanvasDriver {I : Type} : Driver I (Time * Draw number style) :=
  sinkDriver (fun draws => map (fun _ => tt) (rendered draws)).

(** The values a timed stream carries at time [t], in order. *)
Definition at_time {A : Type} (t : Time) (xs : list (Time * A)) : list A :=
  List.map snd (List.filter (fun e => (fst e =? t)%Z) xs).

(** The Draws waiting for the animation frame that runs at [t], oldest
    first, and the Draws handed to [draw] in that frame. *)
Definition delivered_at (t : Time) (draws : Timed (Draw number style)) : list (Draw number style) :=
  at_time t (emits (observeOn animationFrame draws)).

Definition rendered_at (t : Time) (draws : Timed (Draw number style)) : list (Draw number style) :=
  at_time t (emits (rendered draws)).

(** "Render the latest, skip stale frames": in every frame the one Draw
    rendered is the newest of those waiting for it. *)
Definition renders_latest (draws : Timed (Draw number style)) : Prop :=
  forall t, rendered_at t draws = option_list (last (delivered_at t draws)).

(** In every frame the one Draw rendered is the oldest of those waiting
    for it. *)
Definition renders_first (draws : Timed (Draw number style)) : Prop :=
  forall t, rendered_at t draws = option_list (head (delivered_at t draws)).

End Sink.
End Canvas.

(** ** Concrete inputs used below *)

Module Scenarios.
Import Rx Runtime.

(** An inner component whose [state] output emits the two reducers of the
    scenario and which passes a [draws] stream through. *)
Definition scenario_component : Component (gmap string (SourceVal Z unit)) (gmap string (SinkVal Z nat)) :=
  fun _ =>
    <["state"%string := StateOut (mkObservable [fun x => (x + 1)%Z; fun x => (x * 2)%Z] Open)]>
      (<["draws"%string := Out (mkObservable [7] Open)]> ∅).

(** A driver set with one driver of each variant, and a component that
    produces a stream for [draws] only. *)
Definition done_signal (out : Observable nat) : Observable unit :=
  map (fun _ => tt) out.



(** A driver set whose one sink is named [constructor], and a component
    that returns the empty record. *)
Definition constructor_sink : Drivers nat nat :=
  [("constructor"%string, sinkDriver done_signal)].

Definition no_output : Component (gmap string nat) (gmap string (Observable nat)) :=
  fun _ => ∅.

(** A page without any element, whatever the selector. *)
Definition empty_page : string -> option unit := fun _ => None.

Definition no_events : forall E : Type, unit -> string -> Observable E := fun _ _ _ => NEVER.

Definition no_size : unit -> nat -> Z := fun _ _ => 0%Z.

(** A display that refreshes every 16 ms, and two Draws that arrive
    before its first frame. *)
Definition frame16 : Time -> Time := fun t => (16 * (t / 16 + 1))%Z.

Definition two_draws : Timed (Drawing.Draw Z string) :=
  mkObservable
    [(0%Z, Drawing.clearRect 0%Z 0%Z 10%Z 10%Z);
     (5%Z, Drawing.fillRect 1%Z 1%Z 2%Z 2%Z)]
    Open.

End Scenarios.

(** ** The Pong component (src/index.ts)

    Every number of the game is an integer: the initial state, the
    velocity (only ever negated), the paddle steps of ten and the
    [clientWidth] and [clientHeight] of the canvas.  JavaScript computes
    exactly on such values, which are taken in [Z]. *)

Module Pong.
Import Rx Runtime Drawing Keys.

Record Point2d : Type := { x : Z; y : Z }.

Definition BALL_RADIUS : Z := 10.
Definition PADDLE_WIDTH : Z := 10.
Definition LEFT_PADDLE : Z := 20.
Definition PADDLE_HEIGHT : Z := 50.

Record PongState : Type := {
  ball : Point2d;
  velocity : Point2d;
  leftPaddle : Z;
  rightPaddle : Z
}.

(** [lpLens.modify] and [rpLens.modify] *)
Definition lpLens_modify (f : Z -> Z) (s : PongState) : PongState :=
  {| ball := ball s; velocity := velocity s;
     leftPaddle := f (leftPaddle s); rightPaddle := rightPaddle s |}.

Definition rpLens_modify (f : Z -> Z) (s : PongState) : PongState :=
  {| ball := ball s; velocity := velocity s;
     leftPaddle := leftPaddle s; rightPaddle := f (rightPaddle s) |}.

Definition add (x y : Z) : Z := (x + y)%Z.

Definition identity {A : Type} (a : A) : A := a.

Definition nextVelocity (size : Dom.Size2d Z) (state : PongState) : Point2d :=
  let v := velocity state in
  let b := ball state in
  if ((y b - BALL_RADIUS <=? 0) && (y v <? 0))%Z then
    {| x := x v; y := (y v * -1)%Z |}
  else if ((Dom.height size <=? y b + BALL_RADIUS) && (0 <? y v))%Z then
    {| x := x v; y := (y v * -1)%Z |}
  else if ((x b - BALL_RADIUS <=? 0) && (x v <? 0))%Z then
    {| x := (x v * -1)%Z; y := y v |}
  else if ((Dom.width size <=? x b + BALL_RADIUS) && (0 <? x v))%Z then
    {| x := (x v * -1)%Z; y := y v |}
  else if ((x b - BALL_RADIUS <=? LEFT_PADDLE)
           && (y b <=? leftPaddle state + PADDLE_HEIGHT)
           && (leftPaddle state <=? y b))%Z then
    {| x := x v; y := (y v * -1)%Z |}
  else if ((Dom.width size - LEFT_PADDLE <=? x b + BALL_RADIUS)
           && (y b <=? rightPaddle state + PADDLE_HEIGHT)
           && (rightPaddle state <=? y b))%Z then
    {| x := x v; y := (y v * -1)%Z |}
  else v.

Definition tickBall (size : Dom.Size2d Z) (state : PongState) : PongState :=
  let velocity' := nextVelocity size state in
  let ball' := {| x := (x (ball state) + x velocity')%Z; y := (y (ball state) + y velocity')%Z |} in
  {| ball := ball'; velocity := velocity';
     leftPaddle := leftPaddle state; rightPaddle := rightPaddle state |}.

Definition drawState (size : Dom.Size2d Z) (state : PongState) : Result (Draw Z string) :=
  all [
    clearRect 0%Z 0%Z (Dom.width size) (Dom.height size);
    beginPath;
    strokeStyle "black"%string;
    fillStyle "black"%string;
    arc (x (ball state)) (y (ball state)) BALL_RADIUS 0%Z 360%Z None;
    stroke;
    fillRect (LEFT_PADDLE - PADDLE_WIDTH)%Z (leftPaddle state) PADDLE_WIDTH PADDLE_HEIGHT;
    fillRect (Dom.width size - LEFT_PADDLE)%Z (rightPaddle state) PADDLE_WIDTH PADDLE_HEIGHT
  ].

(** The [switch] of [computePaddleMotion]. *)
Definition key_reducer (k : string) : Reducer PongState :=
  if String.eqb k "w" then lpLens_modify (add (-10))
  else if String.eqb k "s" then lpLens_modify (add 10)
  else if String.eqb k "ArrowUp" then rpLens_modify (add (-10))
  else if String.eqb k "ArrowDown" then rpLens_modify (add 10)
  else identity.

Definition computePaddleMotion (keys : list string) : Result (Reducer PongState) :=
  let reducers := List.map key_reducer keys in
  if (0 <? length reducers)%nat
  then reduce (fun f g => fun x => f (g x)) reducers
  else Ok identity.

(** A key event of [#main]: a keydown or a keyup, as [merge] interleaves
    them in the order they are dispatched. *)
Inductive KeyEdge : Type :=
| Pressed (e : KeyboardEvent)
| Released (e : KeyboardEvent).

(** [.pipe(map(keyDown))] and [.pipe(map(keyUp))] *)
Definition edge_reducer (edge : KeyEdge) : list string -> list string :=
  match edge with
  | Pressed e => keyDown e
  | Released e => keyUp e
  end.

Definition edge_key (edge : KeyEdge) : string :=
  match edge with Pressed e | Released e => key e end.

(** [merge(keyDowns, keyUps).pipe(scan((as, f) => f(as), []))] *)
Definition pressed_keys (edges : Observable KeyEdge) : Observable (list string) :=
  scan (fun as_ f => f as_) [] (map edge_reducer edges).

(** [.pipe(map(computePaddleMotion))] over the pressed keys. *)
Definition paddle_reducers (edges : Observable KeyEdge) : Observable (Result (Reducer PongState)) :=
  map computePaddleMotion (pressed_keys edges).

Definition initial : PongState := {|
  ball := {| x := 20; y := 20 |};
  velocity := {| x := 3; y := 3 |};
  leftPaddle := 10;
  rightPaddle := 400
|}.

(** The state after the ticks of [ballMotion] for the given canvas
    sizes, oldest first. *)
Definition ticked (sizes : list (Dom.Size2d Z)) (state : PongState) : PongState :=
  fold_left (fun s size => tickBall size s) sizes state.

(** How many times [k] is among the keys. *)
Definition held (k : string) (keys : list string) : Z :=
  Z.of_nat (count_occ String.string_dec keys k).

End Pong.

(** ** Notions used to state what the interpreter and the sinks do *)

Module Observed.
Import Rx Runtime Drawing.

(** Whether the [switch] of [drawImpl] has a [case] for the tag of [op]. *)
Definition has_case {number style : Type} (op : DrawOp number style) : bool :=
  match op with
  | StrokeStyle _ => false
  | _ => true
  end.

(** Neighbours of a list: the pairs of an element and its successor. *)
Definition neighbours {A : Type} (xs : list A) : list (A * A) :=
  zip xs (tail xs).

(** A driver set without any SinkOnly or Full driver, a component that
    produces a stream nobody can receive, and Draws that arrive a frame
    apart. *)
Definition sources_only : Drivers nat nat :=
  [("dom"%string, sourceDriver 5); ("clock"%string, sourceDriver 6)].

Definition stray_output : Component (gmap string nat) (gmap string (Observable nat)) :=
  fun _ => {["dom"%string := mkObservable [3] Open]}.

Definition spaced_draws : Timed (Draw Z string) :=
  mkObservable
    [(0%Z, clearRect 0%Z 0%Z 10%Z 10%Z);
     (20%Z, fillRect 1%Z 1%Z 2%Z 2%Z)]
    Completed.

(** A page whose only element is [#main], 300 by 200 throughout, and
    three samples. *)
Definition main_only : string -> option unit :=
  fun selector => if String.eqb selector "#main" then Some tt else None.

Definition fixed_width : unit -> nat -> Z := fun _ _ => 300%Z.
Definition fixed_height : unit -> nat -> Z := fun _ _ => 200%Z.

Definition three_samples : Observable nat := mkObservable [0; 1; 2] Open.

(** A width that grows at the second sample and then stays. *)
Definition growing_width : unit -> nat -> Z :=
  fun _ n => match n with 0 => 300%Z | _ => 320%Z end.

(** A ball at the left wall, moving left. *)
Definition at_left_wall : Pong.PongState := {|
  Pong.ball := {| Pong.x := 5; Pong.y := 100 |};
  Pong.velocity := {| Pong.x := -3; Pong.y := 3 |};
  Pong.leftPaddle := 10;
  Pong.rightPaddle := 400
|}.

(** The state with each paddle moved by ten per key held for it. *)
Definition moved (keys : list string) (s : Pong.PongState) : Pong.PongState :=
  {| Pong.ball := Pong.ball s; Pong.velocity := Pong.velocity s;
     Pong.leftPaddle :=
       (Pong.leftPaddle s + 10 * (Pong.held "s" keys - Pong.held "w" keys))%Z;
     Pong.rightPaddle :=
       (Pong.rightPaddle s + 10 * (Pong.held "ArrowDown" keys - Pong.held "ArrowUp" keys))%Z |}.

(** Key events: [w] pressed, [s] pressed, [w] pressed again, [s]
    released. *)
Definition some_edges : Observable Pong.KeyEdge :=
  mkObservable
    [Pong.Pressed {| Keys.key := "w" |}; Pong.Pressed {| Keys.key := "s" |};
     Pong.Pressed {| Keys.key := "w" |}; Pong.Released {| Keys.key := "s" |}]
    Open.

Definition court : Dom.Size2d Z := {| Dom.width := 600%Z; Dom.height := 450%Z |}.

End Observed.

(** * Properties *)

(** ** The drawing-operation algebra *)

Section DrawingFacts.
Import Drawing.
Context {number style : Type}.
Implicit Types (a b c d : Draw number style) (seq : list (Draw number style)).

Lemma gen_and a b : gen (and a b) = gen a ++ gen b.
Proof. reflexivity. Qed.

Lemma gen_fold_and seq :
  forall acc : Draw number style,
    gen (fold_left and seq acc) = gen acc ++ concat (List.map gen seq).
Proof.
  induction seq as [|d seq IH]; intros acc; simpl.
  - by rewrite app_nil_r.
  - by rewrite IH, gen_and, <- app_assoc.
Qed.

(** C2. The traversal of [and(a, b)] is the traversal of [a] followed by
    that of [b]; the traversal of [all] of a non-empty sequence is the
    concatenation of the traversals of its elements, in their order. *)
Theorem all_gen_concat :
  (forall a b, gen (and a b) = gen a ++ gen b) /\
  (forall d seq, exists r,
      all (d :: seq) = Ok r /\
      gen r = concat (List.map gen (d :: seq))).
Proof.
  split; [apply gen_and|].
  intros d seq. exists (fold_left and seq d). split; [reflexivity|].
  simpl. apply gen_fold_and.
Qed.

(** C4. [all] of the empty sequence throws (the [TypeError] of [reduce])
    and yields no Draw; [all] of a non-empty sequence returns. *)
Theorem all_empty_throws :
  throws (all (@nil (Draw number style))) /\
  (forall r, all (@nil (Draw number style)) <> Ok r) /\
  (forall d seq, returns (all (d :: seq))).
Proof.
  repeat split.
  intros r H. discriminate H.
Qed.

(** C9. Composition is associative up to traversal, and [all] of a
    singleton is its element, with no node added. *)
Theorem and_assoc_all_singleton :
  (forall a b c, gen (and (and a b) c) = gen (and a (and b c))) /\
  (forall d, all [d] = Ok d).
Proof.
  split.
  - intros a b c. rewrite !gen_and. by rewrite app_assoc.
  - reflexivity.
Qed.

End DrawingFacts.

(** ** Key tracking *)

Section KeysFacts.
Import Keys.

Lemma keyUp_not_in e as_ : ~ In (key e) (keyUp e as_).
Proof.
  unfold keyUp. rewrite filter_In. intros [_ H].
  by rewrite String.eqb_refl in H.
Qed.

Lemma keyUp_fixed e as_ : ~ In (key e) as_ -> keyUp e as_ = as_.
Proof.
  unfold keyUp. induction as_ as [|k ks IH]; simpl; [done|].
  intros H. destruct (String.eqb_spec k (key e)) as [->|Hne]; simpl.
  - exfalso. apply H. by left.
  - f_equal. apply IH. intros Hin. apply H. by right.
Qed.

Lemma keyUp_app e xs ys : keyUp e (xs ++ ys) = keyUp e xs ++ keyUp e ys.
Proof. unfold keyUp. apply List.filter_app. Qed.

Lemma keyUp_idem e as_ : keyUp e (keyUp e as_) = keyUp e as_.
Proof. apply keyUp_fixed, keyUp_not_in. Qed.

(** C10. [keyUp(e)(as)] has no occurrence of [e.key]; [keyDown(e)(as)]
    has exactly one, in last position; a repeated keydown of a held key
    leaves the list as it is. *)
Theorem key_tracking_no_duplicates :
  forall (e : KeyboardEvent) (as_ : list string),
    ~ In (key e) (keyUp e as_) /\
    count_occ String.string_dec (keyDown e as_) (key e) = 1 /\
    last (keyDown e as_) = Some (key e) /\
    keyDown e (keyDown e as_) = keyDown e as_.
Proof.
  intros e as_. split; [apply keyUp_not_in|]. unfold keyDown.
  repeat split.
  - rewrite count_occ_app. simpl.
    destruct (String.string_dec (key e) (key e)) as [_|Hne]; [|done].
    pose proof (keyUp_not_in e as_) as Hnot.
    apply (count_occ_not_In String.string_dec) in Hnot. rewrite Hnot. reflexivity.
  - apply last_snoc.
  - rewrite keyUp_app, keyUp_idem.
    unfold keyUp at 2. simpl. rewrite String.eqb_refl. simpl.
    by rewrite app_nil_r.
Qed.

End KeysFacts.

(** ** The stateful wrapper *)

Section StatefulFacts.
Import Rx Runtime.

Lemma scan_values_length {A B : Type} (f : B -> A -> B) (xs : list A) :
  forall seed, length (scan_values f seed xs) = length xs.
Proof. induction xs as [|x xs IH]; intros seed; simpl; [done|]. by rewrite IH. Qed.

Lemma scan_values_lookup {A B : Type} (f : B -> A -> B) (xs : list A) :
  forall seed n, n < length xs ->
    scan_values f seed xs !! n = Some (fold_left f (take (S n) xs) seed).
Proof.
  induction xs as [|x xs IH]; intros seed n Hn; simpl in *; [lia|].
  destruct n as [|n]; simpl.
  - reflexivity.
  - apply IH. lia.
Qed.

Lemma reduced_emits {S : Type} (initial : S) (state : Observable (Reducer S)) :
  emits (reduced initial state) =
    initial :: scan_values (fun s f => f s) initial (emits state).
Proof. reflexivity. Qed.

Lemma reduced_lookup {S : Type} (initial : S) (state : Observable (Reducer S)) (n : nat) :
  n <= length (emits state) ->
  emits (reduced initial state) !! n =
    Some (fold_left (fun s f => f s) (take n (emits state)) initial).
Proof.
  intros Hn. rewrite reduced_emits. destruct n as [|n]; [done|].
  simpl. apply scan_values_lookup. exact Hn.
Qed.

Lemma stateful_wired {S I O : Type} (initial : S)
  (component : Component (gmap string (SourceVal S I)) (gmap string (SinkVal S O)))
  (inputs : gmap string (SourceVal S I)) (state : Observable (Reducer S)) :
  component (<["state"%string := StateIn NewSubject]> inputs) !! "state"%string = Some (StateOut state) ->
  stateful initial component inputs =
    Some {| returned := delete "state"%string (component (<["state"%string := StateIn NewSubject]> inputs));
            loopback_feed := reduced initial state |}.
Proof. intros H. unfold stateful. by rewrite H. Qed.

(** C1. The state stream of [stateful(initial, component)] first emits
    [initial] and, after the [n]-th reducer of the inner [state] output,
    the left fold of the first [n] reducers over [initial]; one emission
    per reducer.  With reducers [x => x + 1], [x => x * 2] and seed [0]
    it emits [0, 1, 2]. *)
Theorem stateful_emits_left_fold :
  (forall (S I O : Type) (initial : S)
      (component : Component (gmap string (SourceVal S I)) (gmap string (SinkVal S O)))
      (inputs : gmap string (SourceVal S I)) (state : Observable (Reducer S)),
      component (<["state"%string := StateIn NewSubject]> inputs) !! "state"%string = Some (StateOut state) ->
      exists w,
        stateful initial component inputs = Some w /\
        emits (loopback_feed w) !! 0 = Some initial /\
        length (emits (loopback_feed w)) = Datatypes.S (length (emits state)) /\
        forall n, n <= length (emits state) ->
          emits (loopback_feed w) !! n =
            Some (fold_left (fun s f => f s) (take n (emits state)) initial)) /\
  (forall (I O : Type)
      (component : Component (gmap string (SourceVal Z I)) (gmap string (SinkVal Z O)))
      (inputs : gmap string (SourceVal Z I)) (e : Ending),
      component (<["state"%string := StateIn NewSubject]> inputs) !! "state"%string =
        Some (StateOut (mkObservable [fun x => (x + 1)%Z; fun x => (x * 2)%Z] e)) ->
      exists w,
        stateful 0%Z component inputs = Some w /\
        emits (loopback_feed w) = [0; 1; 2]%Z).
Proof.
  split.
  - intros S I O initial component inputs state Hstate.
    eexists. split; [by apply stateful_wired|]. simpl.
    split; [done|]. split.
    + by rewrite scan_values_length.
    + intros n Hn. by apply reduced_lookup.
  - intros I O component inputs e Hstate.
    eexists. split; [by apply stateful_wired|]. reflexivity.
Qed.

Lemma stateful_emits_left_fold_witness :
  exists w,
    stateful 0%Z Scenarios.scenario_component ∅ = Some w /\
    emits (loopback_feed w) = [0; 1; 2]%Z.
Proof.
  apply (proj2 stateful_emits_left_fold unit nat Scenarios.scenario_component ∅ Open).
  reflexivity.
Defined.

(** C5. The record returned by the wrapped component has no [state] key,
    and every other key of the inner component's output record is bound
    in it to the same value. *)
Theorem stateful_hides_state :
  forall (S I O : Type) (initial : S)
    (component : Component (gmap string (SourceVal S I)) (gmap string (SinkVal S O)))
    (inputs : gmap string (SourceVal S I)) (state : Observable (Reducer S)),
    component (<["state"%string := StateIn NewSubject]> inputs) !! "state"%string = Some (StateOut state) ->
    exists w,
      stateful initial component inputs = Some w /\
      returned w !! "state"%string = None /\
      forall k, k <> "state"%string ->
        returned w !! k = component (<["state"%string := StateIn NewSubject]> inputs) !! k.
Proof.
  intros S I O initial component inputs state Hstate.
  eexists. split; [by apply stateful_wired|]. simpl. split.
  - apply lookup_delete_eq.
  - intros k Hk. by apply lookup_delete_ne.
Qed.

Lemma stateful_hides_state_witness :
  exists w,
    stateful 0%Z Scenarios.scenario_component ∅ = Some w /\
    returned w !! "state"%string = None /\
    forall k, k <> "state"%string ->
      returned w !! k = Scenarios.scenario_component (<["state"%string := StateIn NewSubject]> ∅) !! k.
Proof.
  apply (stateful_hides_state Z unit nat 0%Z Scenarios.scenario_component ∅
           (mkObservable [fun x => (x + 1)%Z; fun x => (x * 2)%Z] Open)).
  reflexivity.
Defined.

End StatefulFacts.

(** ** The runner *)

Section RunFacts.
Import Rx Runtime.
Context {I O : Type}.
Implicit Types (drivers : Drivers I O) (drv : Driver I O) (key : string).
Implicit Types (sinks : gmap string (Observable O)) (sources : gmap string I).


Lemma provide_of_exposes drv : is_Some (provide_of drv) <-> exposes_capability drv = true.
Proof.
  destruct drv; unfold exposes_capability; simpl; split; intros H;
    try done; try (by eexists); by destruct H.
Qed.

Lemma receive_of_accepts drv : is_Some (receive_of drv) <-> accepts_output drv = true.
Proof.
  destruct drv; unfold accepts_output; simpl; split; intros H;
    try done; try (by eexists); by destruct H.
Qed.







Lemma sink_entries_cons drivers key drv :
  sink_entries ((key, drv) :: drivers) =
    match receive_of drv with
    | Some receive => (key, receive) :: sink_entries drivers
    | None => sink_entries drivers
    end.
Proof. by destruct drv. Qed.

(** The second loop, entry by entry. *)
Lemma feed_fold drivers sinks :
  forall (pushed : list Sunk) (calls : list (Call I O)),
    fold_left (feed_step sinks) drivers (pushed, calls) =
      (pushed ++ List.map (fun e => receive_result (snd e) (or_NEVER (get sinks (fst e))))
                   (sink_entries drivers),
       calls ++ List.map (fun e => CallReceive (fst e) (or_NEVER (get sinks (fst e))))
                  (sink_entries drivers)).
Proof.
  induction drivers as [|[k d] drivers IH]; intros pushed calls.
  - simpl. by rewrite !app_nil_r.
  - rewrite sink_entries_cons. simpl fold_left.
    destruct d as [receive|provide|provide receive]; simpl; rewrite IH;
      by rewrite ?app_nil_r, <- ?app_assoc.
Qed.

Lemma feed_sinks_spec drivers sinks :
  feed_sinks drivers sinks =
    (List.map (fun e => receive_result (snd e) (or_NEVER (get sinks (fst e))))
       (sink_entries drivers),
     List.map (fun e => CallReceive (fst e) (or_NEVER (get sinks (fst e))))
       (sink_entries drivers)).
Proof. unfold feed_sinks, ret. by rewrite feed_fold. Qed.

Lemma run_spec drivers component :
  run drivers component =
    ({| subscribed :=
          List.map (fun e => receive_result (snd e)
                               (or_NEVER (get (component (collect_sources drivers)) (fst e))))
            (sink_entries drivers) |},
     CallComponent (collect_sources drivers) ::
       List.map (fun e => CallReceive (fst e)
                            (or_NEVER (get (component (collect_sources drivers)) (fst e))))
         (sink_entries drivers)).
Proof.
  unfold run, bind, call, ret. rewrite feed_sinks_spec. by rewrite app_nil_r.
Qed.



Lemma receive_calls_map {E : Type} (name : E -> string) (out : E -> Passed O) (entries : list E) :
  receive_calls (List.map (fun e => @CallReceive I O (name e) (out e)) entries) =
    List.map (fun e => (name e, out e)) entries.
Proof.
  induction entries as [|e entries IH]; [done|].
  simpl. f_equal. exact IH.
Qed.

Lemma component_calls_map {E : Type} (name : E -> string) (out : E -> Passed O) (entries : list E) :
  component_calls (List.map (fun e => @CallReceive I O (name e) (out e)) entries) = [].
Proof.
  induction entries as [|e entries IH]; [done|]. exact IH.
Qed.

Lemma receive_calls_run drivers component :
  receive_calls (snd (run drivers component)) =
    List.map (fun e => (fst e, or_NEVER (get (component (collect_sources drivers)) (fst e))))
      (sink_entries drivers).
Proof.
  rewrite run_spec.
  change (snd (?a, ?b)) with b.
  change (receive_calls (?c :: ?l)) with (receive_calls l).
  apply (receive_calls_map fst).
Qed.

Lemma component_calls_run drivers component :
  component_calls (snd (run drivers component)) = [collect_sources drivers].
Proof.
  rewrite run_spec.
  change (snd (?a, ?b)) with b.
  change (component_calls (CallComponent ?s :: ?l)) with (s :: component_calls l).
  f_equal. apply (component_calls_map fst).
Qed.




Lemma get_inherited (sinks : gmap string (Observable O)) key :
  sinks !! key = None -> key ∈ Object_prototype ->
  or_NEVER (get sinks key) = NotAStream key.
Proof.
  intros H Hin. unfold get. rewrite H. by rewrite bool_decide_eq_true_2.
Qed.



End RunFacts.


(** C3. The claim fails on the code for a sink named like a member of
    [Object.prototype]: with the one sink driver [constructor] and a
    component that returns the empty record, the record has no stream
    under that name, yet [run] calls the receive function once, with the
    inherited member and not with [NEVER]. *)
Theorem run_inherited_name_not_NEVER :
  Scenarios.no_output (Runtime.collect_sources Scenarios.constructor_sink)
    !! "constructor"%string = None /\
  Runtime.receive_calls (snd (Runtime.run Scenarios.constructor_sink Scenarios.no_output))
    = [("constructor"%string, Runtime.NotAStream "constructor"%string)] /\
  (("constructor"%string, Runtime.Stream Rx.NEVER) ∉
     Runtime.receive_calls (snd (Runtime.run Scenarios.constructor_sink Scenarios.no_output))) /\
  Rx.subscribed (fst (Runtime.run Scenarios.constructor_sink Scenarios.no_output))
    = [Rx.ReturnedFor "constructor"%string].
Proof.
  split; [reflexivity|]. split; [reflexivity|]. split; [|reflexivity].
  intros Hin. apply list_elem_of_In in Hin. vm_compute in Hin.
  destruct Hin as [Heq|[]]. discriminate Heq.
Qed.


(** ** The DOM driver *)

Section DomFacts.
Import Rx Runtime Dom.
Context {number : Type} `{EqDecision number}.
Context {Node MouseEvent : Type}.
Variable querySelector : string -> option Node.
Variable fromEvent : forall E : Type, Node -> string -> Observable E.
Variable clientWidth clientHeight : Node -> nat -> number.

Lemma NEVER_silent {A : Type} : silent (@NEVER A).
Proof. by split. Qed.

Lemma attach_missing (E : Type) (selector event : string) :
  querySelector selector = None ->
  attach querySelector fromEvent E selector event = NEVER.
Proof. intros Hq. unfold attach. by rewrite Hq. Qed.

(** C7. For a selector that matches no element, every capability of the
    DOM driver returns a stream that never emits, never errors and never
    completes. *)
Theorem dom_missing_selector_silent :
  forall (selector : string),
    querySelector selector = None ->
    exists dom : DOM number MouseEvent,
      provide_of (@makeDOMDriver number _ Node MouseEvent
                    querySelector fromEvent clientWidth clientHeight unit) = Some dom /\
      silent (mousemove dom selector) /\
      silent (keydown dom selector) /\
      silent (keyup dom selector) /\
      silent (keypress dom selector) /\
      (forall (U : Type) (sampleInterval : Observable U),
          silent (fst (dimensions dom U selector sampleInterval))).
Proof.
  intros selector Hq. eexists. split; [reflexivity|]. simpl.
  rewrite !attach_missing by done.
  repeat split; try reflexivity.
  all: intros; unfold dimensions_impl; by rewrite Hq.
Qed.

End DomFacts.

Lemma dom_missing_selector_silent_witness :
  exists dom : Dom.DOM Z unit,
    Runtime.provide_of (@Dom.makeDOMDriver Z _ unit unit
                  Scenarios.empty_page Scenarios.no_events Scenarios.no_size Scenarios.no_size unit)
      = Some dom /\
    Dom.silent (Dom.mousemove dom "#main") /\
    Dom.silent (Dom.keydown dom "#main") /\
    Dom.silent (Dom.keyup dom "#main") /\
    Dom.silent (Dom.keypress dom "#main") /\
    (forall (U : Type) (sampleInterval : Rx.Observable U),
        Dom.silent (fst (Dom.dimensions dom U "#main" sampleInterval))).
Proof.
  apply (@dom_missing_selector_silent Z _ unit unit
           Scenarios.empty_page Scenarios.no_events Scenarios.no_size Scenarios.no_size "#main"%string).
  reflexivity.
Defined.

(** ** The canvas sink *)

Section CanvasFacts.
Import Rx Runtime Drawing Canvas.

Lemma throttle_values_sublist {A : Type} (duration : Time) (xs : list (Time * A)) :
  forall u, throttle_values duration u xs `sublist_of` xs.
Proof.
  induction xs as [|[t x] xs IH]; intros u; simpl; [done|].
  destruct u as [v|]; [destruct (t <? v)%Z|].
  - by apply sublist_cons.
  - by apply sublist_skip.
  - by apply sublist_skip.
Qed.

Lemma at_time_cons {A : Type} (t t' : Time) (x : A) (xs : list (Time * A)) :
  at_time t ((t', x) :: xs) = if (t' =? t)%Z then x :: at_time t xs else at_time t xs.
Proof. unfold at_time. simpl. by destruct (t' =? t)%Z. Qed.

Lemma at_time_later {A : Type} (t t' : Time) (xs : list (Time * A)) :
  Forall (Z.le t') (List.map fst xs) -> (t < t')%Z -> at_time t xs = [].
Proof.
  induction xs as [|[t0 x] xs IH]; intros Hall Hlt; [done|].
  simpl in Hall. apply Forall_cons in Hall as [Hle Hall].
  rewrite at_time_cons. destruct (Z.eqb_spec t0 t) as [->|_]; [lia|]. by apply IH.
Qed.

(** What [throttleTime(1)] lets through at each instant, when values
    arrive in time order and none precedes the value that started the
    current throttle. *)
Lemma throttle_at_time {A : Type} (xs : list (Time * A)) :
  forall (u : option Time) (t : Time),
    StronglySorted Z.le (List.map fst xs) ->
    (forall v, u = Some v -> Forall (Z.le (v - 1)) (List.map fst xs)) ->
    at_time t (throttle_values 1%Z u xs) =
      if match u with Some v => (t <? v)%Z | None => false end
      then []
      else option_list (head (at_time t xs)).
Proof.
  induction xs as [|[t0 x] xs IH]; intros u t Hsorted Hafter.
  - simpl. by destruct u as [v|]; [destruct (t <? v)%Z|].
  - simpl in Hsorted. apply StronglySorted_inv in Hsorted as [Hsorted Hrest].
    assert (forall w, Some (t0 + 1)%Z = Some w -> Forall (Z.le (w - 1)) (List.map fst xs)) as Hnext.
    { intros w [= <-]. by replace (t0 + 1 - 1)%Z with t0 by lia. }
    assert (at_time t ((t0, x) :: throttle_values 1%Z (Some (t0 + 1)%Z) xs) =
              option_list (head (at_time t ((t0, x) :: xs)))) as Hpass.
    { rewrite !at_time_cons, (IH (Some (t0 + 1)%Z) t Hsorted Hnext).
      destruct (Z.eqb_spec t0 t) as [->|Hne].
      - destruct (Z.ltb_spec t (t + 1)); [done|lia].
      - destruct (Z.ltb_spec t (t0 + 1)); [|done].
        rewrite (at_time_later t t0) by (done || lia). done. }
    simpl throttle_values. destruct u as [v|]; [|exact Hpass].
    pose proof (Hafter v eq_refl) as Hge. simpl in Hge.
    apply Forall_cons in Hge as [Hge0 Hge].
    destruct (Z.ltb_spec t0 v) as [Hthrottled|Hfree].
    + rewrite (IH (Some v) t Hsorted) by (by intros w [= <-]).
      destruct (Z.ltb_spec t v); [done|].
      rewrite at_time_cons. destruct (Z.eqb_spec t0 t); [lia|done].
    + rewrite Hpass. destruct (Z.ltb_spec t v) as [Hlt|]; [|done].
      rewrite (at_time_later t t0); [done| |lia].
      simpl. apply Forall_cons. split; [lia|done].
Qed.

End CanvasFacts.

Section CanvasSink.
Import Rx Runtime Drawing Canvas.
Context {number style : Type}.
Variable animationFrame : Time -> Time.
Implicit Types (draws : Timed (Draw number style)).

Lemma sublist_map {A B : Type} (f : A -> B) (l k : list A) :
  l `sublist_of` k -> List.map f l `sublist_of` List.map f k.
Proof.
  induction 1 as [|x l k _ IH|x l k _ IH]; simpl.
  - done.
  - by apply sublist_skip.
  - by apply sublist_cons.
Qed.

Lemma observeOn_values {A : Type} (runs_at : Time -> Time) (source : Timed A) :
  List.map snd (emits (observeOn runs_at source)) = List.map snd (emits source).
Proof. unfold observeOn, map. simpl. rewrite List.map_map. done. Qed.

Lemma observeOn_times {A : Type} (runs_at : Time -> Time) (source : Timed A) :
  List.map fst (emits (observeOn runs_at source)) =
    List.map (fun e => runs_at (fst e)) (emits source).
Proof. unfold observeOn, map. simpl. rewrite List.map_map. done. Qed.

Lemma rendered_sublist draws :
  List.map snd (emits (rendered animationFrame draws)) `sublist_of` List.map snd (emits draws).
Proof.
  rewrite <- (observeOn_values animationFrame draws).
  apply sublist_map. unfold rendered, throttleTime. simpl.
  apply throttle_values_sublist.
Qed.

(** C8, as the code has it.  The Draws handed to [draw] are a
    subsequence of the Draws that arrived, in arrival order, and the sink
    signals once per such Draw; for each of them every op of its
    traversal is handed to [drawImpl], in order; and when the scheduler
    delivers in arrival order, each animation frame renders exactly the
    first Draw that was waiting for it and drops the later ones. *)
Theorem canvas_renders_first_of_frame :
  forall draws,
    StronglySorted Z.le (List.map (fun e => animationFrame (fst e)) (emits draws)) ->
    List.map snd (emits (rendered animationFrame draws)) `sublist_of` List.map snd (emits draws) /\
    (exists receive,
        receive_of (@makeCanvasDriver number style animationFrame unit) = Some receive /\
        length (emits (receive draws)) = length (emits (rendered animationFrame draws))) /\
    emits (canvas_calls animationFrame draws) =
      List.map (fun e => (fst e, flat_map drawImpl (gen (snd e))))
        (emits (rendered animationFrame draws)) /\
    renders_first animationFrame draws.
Proof.
  intros draws Hsorted. split; [apply rendered_sublist|].
  split; [eexists; split; [reflexivity|apply length_map]|].
  split; [reflexivity|].
  intros t. unfold rendered_at, delivered_at, rendered, throttleTime. simpl.
  rewrite throttle_at_time; [done| |done].
  change (List.map fst (List.map (fun e => (animationFrame (fst e), snd e)) (emits draws)))
    with (List.map fst (emits (observeOn animationFrame draws))).
  by rewrite observeOn_times.
Qed.

End CanvasSink.

Lemma canvas_renders_first_of_frame_witness :
  Canvas.renders_first Scenarios.frame16 Scenarios.two_draws.
Proof.
  apply (@canvas_renders_first_of_frame Z string Scenarios.frame16 Scenarios.two_draws).
  vm_compute. repeat constructor; discriminate.
Defined.

(** C8, as the claim has it, fails: two Draws arrive before the first
    frame; that frame renders the first of them and never the second. *)
Lemma canvas_latest_not_rendered :
  Canvas.delivered_at Scenarios.frame16 16%Z Scenarios.two_draws =
    [Drawing.clearRect 0%Z 0%Z 10%Z 10%Z; Drawing.fillRect 1%Z 1%Z 2%Z 2%Z] /\
  Rx.emits (Canvas.rendered Scenarios.frame16 Scenarios.two_draws) =
    [(16%Z, Drawing.clearRect 0%Z 0%Z 10%Z 10%Z)] /\
  ~ Canvas.renders_latest Scenarios.frame16 Scenarios.two_draws.
Proof.
  split; [reflexivity|]. split; [reflexivity|].
  intros Hlatest. specialize (Hlatest 16%Z). vm_compute in Hlatest. discriminate Hlatest.
Qed.

(** * Further properties of the code *)

(** ** Interpreting Draws *)

Section InterpreterFacts.
Import Drawing Observed.
Context {number style : Type}.
Implicit Types (a b d : Draw number style) (seq : list (Draw number style)).

Lemma draw_and a b : draw (and a b) = draw a ++ draw b.
Proof. unfold draw. simpl. apply flat_map_app. Qed.

Lemma draw_fold_and seq :
  forall acc : Draw number style,
    draw (fold_left and seq acc) = draw acc ++ concat (List.map draw seq).
Proof.
  induction seq as [|d seq IH]; intros acc; simpl.
  - by rewrite app_nil_r.
  - by rewrite IH, draw_and, <- app_assoc.
Qed.

(** X1. The canvas calls of a composition are the calls of its first
    part followed by those of its second part, and the calls of [all] of
    a non-empty sequence are those of its elements, in order. *)
Theorem draw_composes :
  (forall a b, draw (and a b) = draw a ++ draw b) /\
  (forall d seq, exists r,
      all (d :: seq) = Ok r /\ draw r = concat (List.map draw (d :: seq))).
Proof.
  split; [apply draw_and|].
  intros d seq. exists (fold_left and seq d). split; [reflexivity|].
  simpl. apply draw_fold_and.
Qed.

Lemma drawImpl_length (op : DrawOp number style) :
  length (drawImpl op) = if has_case op then 1 else 0.
Proof. by destruct op. Qed.

(** X2. [draw] makes one canvas call for every op of the traversal whose
    tag has a [case] in [drawImpl], in traversal order, and none for a
    StrokeStyle op: composing a Draw with [strokeStyle] on either side
    changes nothing of what is drawn. *)
Theorem draw_skips_strokeStyle :
  forall d,
    draw d = flat_map drawImpl (List.filter has_case (gen d)) /\
    length (draw d) = length (List.filter has_case (gen d)) /\
    (forall s, draw (and (strokeStyle s) d) = draw d) /\
    (forall s, draw (and d (strokeStyle s)) = draw d).
Proof.
  intros d. unfold draw.
  assert (forall ops : list (DrawOp number style),
             flat_map drawImpl ops = flat_map drawImpl (List.filter has_case ops) /\
             length (flat_map drawImpl ops) = length (List.filter has_case ops)) as Hops.
  { induction ops as [|op ops [IH1 IH2]]; [done|].
    destruct op; simpl; rewrite ?IH2; split; try done; by f_equal. }
  destruct (Hops (gen d)) as [H1 H2].
  split; [exact H1|]. split; [exact H2|]. split; intros s; simpl.
  - reflexivity.
  - rewrite flat_map_app. simpl. by rewrite app_nil_r.
Qed.

(** X3. The traversal of a Draw is never empty, and [all] of a non-empty
    sequence extended by one more Draw nests the result for the sequence
    on the left of that Draw. *)
Theorem all_snoc_nests_left :
  (forall d, gen d <> []) /\
  (forall d0 seq d, exists r,
      all (d0 :: seq) = Ok r /\
      all ((d0 :: seq) ++ [d]) = Ok (and r d)).
Proof.
  split.
  - induction d as [a IHa b IHb|op]; simpl; [|done].
    intros H. apply app_eq_nil in H as [Ha _]. by apply IHa.
  - intros d0 seq d. exists (fold_left and seq d0). split; [reflexivity|].
    unfold all, reduce. simpl. by rewrite fold_left_app.
Qed.

End InterpreterFacts.

(** ** The Pong component *)

Section PongFacts.
Import Rx Runtime Drawing Keys Pong Observed.
Local Open Scope Z_scope.

Lemma nextVelocity_cases size state :
  nextVelocity size state = velocity state \/
  nextVelocity size state = {| x := x (velocity state); y := y (velocity state) * -1 |} \/
  nextVelocity size state = {| x := x (velocity state) * -1; y := y (velocity state) |}.
Proof.
  unfold nextVelocity.
  repeat match goal with
         | |- context [if ?c then _ else _] => destruct c
         end; auto.
Qed.

Lemma nextVelocity_abs size state :
  Z.abs (x (nextVelocity size state)) = Z.abs (x (velocity state)) /\
  Z.abs (y (nextVelocity size state)) = Z.abs (y (velocity state)).
Proof.
  destruct (nextVelocity_cases size state) as [-> | [-> | ->]]; simpl; lia.
Qed.

(** X4. A tick changes the velocity by negating at most one of its two
    components, whatever the ball touches: both speeds keep their
    magnitude. *)
Theorem nextVelocity_flips_one_component :
  forall size state,
    (nextVelocity size state = velocity state \/
     nextVelocity size state = {| x := x (velocity state); y := y (velocity state) * -1 |} \/
     nextVelocity size state = {| x := x (velocity state) * -1; y := y (velocity state) |}) /\
    Z.abs (x (nextVelocity size state)) = Z.abs (x (velocity state)) /\
    Z.abs (y (nextVelocity size state)) = Z.abs (y (velocity state)).
Proof.
  intros size state. split; [apply nextVelocity_cases|apply nextVelocity_abs].
Qed.

(** X5. The horizontal direction changes only at a side wall the ball is
    moving into; a paddle never reverses it. *)
Theorem nextVelocity_horizontal_only_at_walls :
  forall size state,
    x (nextVelocity size state) <> x (velocity state) ->
    (x (ball state) - BALL_RADIUS <= 0 /\ x (velocity state) < 0) \/
    (Dom.width size <= x (ball state) + BALL_RADIUS /\ 0 < x (velocity state)).
Proof.
  intros size state. unfold nextVelocity.
  destruct ((y (ball state) - BALL_RADIUS <=? 0) && (y (velocity state) <? 0)); [simpl; done|].
  destruct ((Dom.height size <=? y (ball state) + BALL_RADIUS) && (0 <? y (velocity state)));
    [simpl; done|].
  destruct ((x (ball state) - BALL_RADIUS <=? 0) && (x (velocity state) <? 0)) eqn:Hleft.
  { intros _. left. apply andb_prop in Hleft as [H1 H2]. lia. }
  destruct ((Dom.width size <=? x (ball state) + BALL_RADIUS) && (0 <? x (velocity state))) eqn:Hright.
  { intros _. right. apply andb_prop in Hright as [H1 H2]. lia. }
  repeat match goal with
         | |- context [if ?c then _ else _] => destruct c
         end; simpl; done.
Qed.

Lemma nextVelocity_horizontal_only_at_walls_witness :
  x (ball at_left_wall) - BALL_RADIUS <= 0 /\ x (velocity at_left_wall) < 0 \/
  Dom.width court <= x (ball at_left_wall) + BALL_RADIUS /\ 0 < x (velocity at_left_wall).
Proof.
  apply (nextVelocity_horizontal_only_at_walls court at_left_wall).
  vm_compute. discriminate.
Defined.

Lemma ticked_snoc sizes size state :
  ticked (sizes ++ [size]) state = tickBall size (ticked sizes state).
Proof. unfold ticked. by rewrite fold_left_app. Qed.

(** X6. However many ticks pass and whatever the canvas sizes are, the
    ball keeps the magnitude of both speeds and the paddles stay where
    they are; each tick moves the ball by the velocity it ends with. *)
Theorem ticks_keep_speed_and_paddles :
  forall sizes state,
    Z.abs (x (velocity (ticked sizes state))) = Z.abs (x (velocity state)) /\
    Z.abs (y (velocity (ticked sizes state))) = Z.abs (y (velocity state)) /\
    leftPaddle (ticked sizes state) = leftPaddle state /\
    rightPaddle (ticked sizes state) = rightPaddle state /\
    (forall size,
        x (ball (tickBall size state)) = x (ball state) + x (velocity (tickBall size state)) /\
        y (ball (tickBall size state)) = y (ball state) + y (velocity (tickBall size state))).
Proof.
  intros sizes state.
  induction sizes as [|size sizes IH] using rev_ind.
  - repeat split; reflexivity.
  - destruct IH as (Hx & Hy & Hl & Hr & Hstep).
    rewrite ticked_snoc. simpl.
    destruct (nextVelocity_abs size (ticked sizes state)) as [Hvx Hvy].
    repeat split; try congruence; apply Hstep.
Qed.

End PongFacts.

(** ** Keys and paddles *)

Section PaddleFacts.
Import Rx Runtime Keys Pong Observed.

Lemma keyUp_elem e as_ k : In k (keyUp e as_) <-> k <> key e /\ In k as_.
Proof.
  unfold keyUp. rewrite filter_In. split.
  - intros [Hin Hne]. split; [|done]. intros ->. by rewrite String.eqb_refl in Hne.
  - intros [Hne Hin]. split; [done|]. by apply negb_true_iff, String.eqb_neq.
Qed.

Lemma keyUp_NoDup e as_ : List.NoDup as_ -> List.NoDup (keyUp e as_).
Proof. unfold keyUp. apply List.NoDup_filter. Qed.

Lemma keyDown_NoDup e as_ : List.NoDup as_ -> List.NoDup (keyDown e as_).
Proof.
  intros Hnd. unfold keyDown.
  apply NoDup_ListNoDup, NoDup_app. split; [|split].
  - by apply NoDup_ListNoDup, keyUp_NoDup.
  - intros k Hk Hin. apply list_elem_of_singleton in Hin as ->.
    apply list_elem_of_In in Hk. by apply keyUp_not_in in Hk.
  - apply NoDup_singleton.
Qed.

(** X7. A key event changes the membership of its own key only: after
    [keyDown] the pressed keys are the event's key and the keys pressed
    before, after [keyUp] the keys pressed before other than the event's;
    the keys that stay keep their order. *)
Theorem key_event_membership :
  forall (e : KeyboardEvent) (as_ : list string) (k : string),
    (In k (keyDown e as_) <-> k = key e \/ In k as_) /\
    (In k (keyUp e as_) <-> k <> key e /\ In k as_) /\
    keyUp e as_ `sublist_of` as_.
Proof.
  intros e as_ k. split; [|split].
  - unfold keyDown. rewrite in_app_iff, keyUp_elem. simpl.
    destruct (String.string_dec k (key e)) as [->|Hne]; [by intuition|].
    split; [intros [[_ H]|[H|[]]]; [by right|by left]|].
    intros [H|H]; [by right; left|by left].
  - apply keyUp_elem.
  - unfold keyUp. induction as_ as [|a as_ IH]; simpl; [done|].
    destruct (negb (String.eqb a (key e))); [by apply sublist_skip|by apply sublist_cons].
Qed.

Lemma pressed_keys_NoDup_from (edges : list KeyEdge) :
  forall as_ : list string,
    List.NoDup as_ ->
    Forall (fun keys => List.NoDup keys)
      (scan_values (fun as_ f => f as_) as_ (List.map edge_reducer edges)).
Proof.
  induction edges as [|edge edges IH]; intros as_ Hnd; simpl; [done|].
  assert (List.NoDup (edge_reducer edge as_)) as Hnext.
  { destruct edge; simpl; [by apply keyDown_NoDup|by apply keyUp_NoDup]. }
  apply Forall_cons. split; [done|]. by apply IH.
Qed.

Lemma pressed_keys_never_duplicate_aux (edges : Observable KeyEdge) :
  Forall (fun keys => List.NoDup keys) (emits (pressed_keys edges)).
Proof. apply pressed_keys_NoDup_from. constructor. Qed.

(** X8. Whatever keydown and keyup events arrive, in whatever order,
    every list of pressed keys the component computes is free of
    duplicates, and there is one list per event. *)
Theorem pressed_keys_never_duplicate :
  forall edges : Observable KeyEdge,
    Forall (fun keys => List.NoDup keys) (emits (pressed_keys edges)) /\
    length (emits (pressed_keys edges)) = length (emits edges).
Proof.
  intros edges. split.
  - apply pressed_keys_never_duplicate_aux.
  - unfold pressed_keys. simpl. by rewrite scan_values_length, length_map.
Qed.

Lemma compose_fold (rest : list (Reducer PongState)) :
  forall (first : Reducer PongState) (s : PongState),
    fold_left (fun f g => fun x => f (g x)) rest first s =
      first (fold_right (fun g acc => g acc) s rest).
Proof.
  induction rest as [|g rest IH]; intros first s; simpl; [done|].
  by rewrite IH.
Qed.

Lemma held_cons (k k' : string) (keys : list string) :
  held k (k' :: keys) = (if String.eqb k' k then 1 + held k keys else held k keys)%Z.
Proof.
  unfold held. simpl.
  destruct (String.string_dec k' k) as [->|Hne].
  - rewrite String.eqb_refl. lia.
  - apply String.eqb_neq in Hne. by rewrite Hne.
Qed.

Lemma key_reducer_moved (k : string) (keys : list string) (s : PongState) :
  key_reducer k (moved keys s) = moved (k :: keys) s.
Proof.
  unfold key_reducer, moved. rewrite !(held_cons _ k).
  destruct (String.eqb_spec k "w") as [->|Hw];
    [unfold lpLens_modify, add; simpl; f_equal; lia|].
  destruct (String.eqb_spec k "s") as [->|Hs];
    [unfold lpLens_modify, add; simpl; f_equal; lia|].
  destruct (String.eqb_spec k "ArrowUp") as [->|Hu];
    [unfold rpLens_modify, add; simpl; f_equal; lia|].
  destruct (String.eqb_spec k "ArrowDown") as [->|Hd];
    [unfold rpLens_modify, add; simpl; f_equal; lia|].
  reflexivity.
Qed.

Lemma reducers_moved (keys : list string) (s : PongState) :
  fold_right (fun g acc => g acc) s (List.map key_reducer keys) = moved keys s.
Proof.
  induction keys as [|k keys IH]; simpl.
  - unfold moved, held. simpl. destruct s. simpl. f_equal; lia.
  - rewrite IH. apply key_reducer_moved.
Qed.

Lemma computePaddleMotion_net_displacement_aux (keys : list string) :
  exists r : Reducer PongState,
    computePaddleMotion keys = Ok r /\ forall s, r s = moved keys s.
Proof.
  destruct keys as [|k keys].
  - exists identity. split; [reflexivity|]. intros s.
    by rewrite <- (reducers_moved [] s).
  - eexists. split; [reflexivity|]. intros s.
    rewrite compose_fold, reducers_moved. apply key_reducer_moved.
Qed.

(** X9. [computePaddleMotion] never throws, not even without keys, and
    the reducer it returns leaves ball and velocity alone and moves each
    paddle by ten per key held for it: down for [s] and [ArrowDown], up
    for [w] and [ArrowUp]; other keys, and opposite keys held together,
    move nothing. *)
Theorem computePaddleMotion_net_displacement :
  forall keys : list string,
    exists r : Reducer PongState,
      computePaddleMotion keys = Ok r /\
      forall s, r s = moved keys s.
Proof.
  apply computePaddleMotion_net_displacement_aux.
Qed.

Lemma held_NoDup (k : string) (keys : list string) :
  List.NoDup keys -> (held k keys = 0 \/ held k keys = 1)%Z.
Proof.
  intros Hnd. unfold held.
  pose proof (proj1 (NoDup_count_occ String.string_dec keys) Hnd k). lia.
Qed.

(** X10. Every reducer the component derives from the pressed keys moves
    each paddle by ten up, ten down or not at all, however many key
    events came before, and never touches the ball. *)
Theorem paddle_step_at_most_ten :
  forall (edges : Observable KeyEdge) (motion : Result (Reducer PongState)),
    In motion (emits (paddle_reducers edges)) ->
    exists r : Reducer PongState,
      motion = Ok r /\
      forall s,
        ball (r s) = ball s /\ velocity (r s) = velocity s /\
        (Z.abs (leftPaddle (r s) - leftPaddle s) = 0 \/
         Z.abs (leftPaddle (r s) - leftPaddle s) = 10)%Z /\
        (Z.abs (rightPaddle (r s) - rightPaddle s) = 0 \/
         Z.abs (rightPaddle (r s) - rightPaddle s) = 10)%Z.
Proof.
  intros edges motion Hin. unfold paddle_reducers, map in Hin. simpl in Hin.
  apply in_map_iff in Hin as (keys & <- & Hkeys).
  destruct (computePaddleMotion_net_displacement_aux keys) as (r & Hr & Hmoved).
  exists r. split; [done|]. intros s. rewrite Hmoved. simpl.
  assert (List.NoDup keys) as Hnd.
  { pose proof (pressed_keys_never_duplicate_aux edges) as Hall.
    rewrite List.Forall_forall in Hall. by apply Hall. }
  pose proof (held_NoDup "s" keys Hnd). pose proof (held_NoDup "w" keys Hnd).
  pose proof (held_NoDup "ArrowDown" keys Hnd). pose proof (held_NoDup "ArrowUp" keys Hnd).
  repeat split; lia.
Qed.

End PaddleFacts.

Lemma paddle_step_at_most_ten_witness :
  exists r : Runtime.Reducer Pong.PongState,
    Pong.computePaddleMotion ["s"%string; "w"%string] = Ok r /\
    forall s,
      Pong.ball (r s) = Pong.ball s /\ Pong.velocity (r s) = Pong.velocity s /\
      (Z.abs (Pong.leftPaddle (r s) - Pong.leftPaddle s) = 0 \/
       Z.abs (Pong.leftPaddle (r s) - Pong.leftPaddle s) = 10)%Z /\
      (Z.abs (Pong.rightPaddle (r s) - Pong.rightPaddle s) = 0 \/
       Z.abs (Pong.rightPaddle (r s) - Pong.rightPaddle s) = 10)%Z.
Proof.
  apply (paddle_step_at_most_ten Observed.some_edges
           (Pong.computePaddleMotion ["s"%string; "w"%string])).
  simpl. right. right. left. reflexivity.
Defined.

Section DrawStateFacts.
Import Drawing Pong.

(** X11. [drawState] always returns a Draw, of eight ops; drawing it
    clears the whole canvas first, then draws the ball and the paddles
    at [x = 10] and [x = width - 20], in seven canvas calls: the stroke
    style it asks for is not among them. *)
Theorem drawState_canvas_calls :
  forall (size : Dom.Size2d Z) (state : PongState),
    exists d,
      drawState size state = Ok d /\
      length (gen d) = 8 /\
      draw d =
        [CtxClearRect 0%Z 0%Z (Dom.width size) (Dom.height size);
         CtxBeginPath;
         CtxSetFillStyle "black"%string;
         CtxArc (x (ball state)) (y (ball state)) 10%Z 0%Z 360%Z None;
         CtxStroke;
         CtxFillRect 10%Z (leftPaddle state) 10%Z 50%Z;
         CtxFillRect (Dom.width size - 20)%Z (rightPaddle state) 10%Z 50%Z].
Proof.
  intros size state. eexists. split; [reflexivity|]. split; reflexivity.
Qed.

End DrawStateFacts.

(** ** More on the runner *)

Section RunOrderFacts.
Import Rx Runtime.
Context {I O : Type}.
Implicit Types (drivers : Drivers I O) (drv : Driver I O) (key : string).

Lemma sink_entries_elem drivers key (receive : Observable O -> Observable unit) :
  (key, receive) ∈ sink_entries drivers ->
  exists drv, (key, drv) ∈ drivers /\ receive_of drv = Some receive.
Proof.
  unfold sink_entries. rewrite list_elem_of_omap.
  intros ([k drv] & Hin & Hsome). simpl in Hsome.
  destruct (receive_of drv) as [r|] eqn:Hr; [|discriminate].
  injection Hsome as -> ->. by exists drv.
Qed.



(** X13. A receive function is only ever called for a SinkOnly or Full
    driver, under that driver's name.  It is handed the stream the
    component returned under that name; without one, the member objects
    inherit from [Object.prototype] under that name, if there is one,
    and [NEVER] otherwise: a stream returned under any other name is
    passed to nobody. *)
Theorem run_feeds_sinks_only :
  forall drivers (component : Component (gmap string I) (gmap string (Observable O)))
    key (out : Passed O),
    (key, out) ∈ receive_calls (snd (run drivers component)) ->
    (exists drv, (key, drv) ∈ drivers /\ (tag drv = SinkOnly \/ tag drv = Full)) /\
    ((exists stream,
         component (collect_sources drivers) !! key = Some stream /\ out = Stream stream) \/
     (component (collect_sources drivers) !! key = None /\
      (key ∈ Object_prototype) /\ out = NotAStream key) \/
     (component (collect_sources drivers) !! key = None /\
      (key ∉ Object_prototype) /\ out = Stream NEVER)).
Proof.
  intros drivers component key out. rewrite receive_calls_run.
  intros Hin. apply list_elem_of_fmap in Hin as ([k receive] & Heq & Hentry).
  simpl in Heq. injection Heq as -> ->.
  destruct (sink_entries_elem _ _ _ Hentry) as (drv & Hdrv & Hr). split.
  - exists drv. split; [done|]. destruct drv; simpl in *; auto; discriminate.
  - unfold get. destruct (component (collect_sources drivers) !! k) as [stream|].
    + left. by exists stream.
    + right. case_bool_decide; simpl; [left|right]; done.
Qed.

(** X14. With no SinkOnly or Full driver in the set, [run] still invokes
    the component once, calls no receive function and subscribes to
    nothing. *)
Theorem run_without_sinks :
  forall drivers (component : Component (gmap string I) (gmap string (Observable O))),
    (forall key drv, (key, drv) ∈ drivers -> tag drv = SourceOnly) ->
    component_calls (snd (run drivers component)) = [collect_sources drivers] /\
    receive_calls (snd (run drivers component)) = [] /\
    subscribed (fst (run drivers component)) = [].
Proof.
  intros drivers component Hsources.
  assert (sink_entries drivers = []) as Hnone.
  { destruct (sink_entries drivers) as [|[k r] entries] eqn:Hentries; [done|].
    assert ((k, r) ∈ sink_entries drivers) as Hin by (rewrite Hentries; left).
    destruct (sink_entries_elem _ _ _ Hin) as (drv & Hdrv & Hr).
    pose proof (Hsources _ _ Hdrv). by destruct drv. }
  split; [apply component_calls_run|]. split.
  - by rewrite receive_calls_run, Hnone.
  - by rewrite run_spec, Hnone.
Qed.

End RunOrderFacts.

Lemma run_feeds_sinks_only_witness :
  exists drv, ("constructor"%string, drv) ∈ Scenarios.constructor_sink /\
              (Runtime.tag drv = Runtime.SinkOnly \/ Runtime.tag drv = Runtime.Full).
Proof.
  apply (proj1 (@run_feeds_sinks_only nat nat Scenarios.constructor_sink Scenarios.no_output
                  "constructor"%string (Runtime.NotAStream "constructor"%string)
                  ltac:(apply list_elem_of_In; vm_compute; left; reflexivity))).
Defined.

Lemma run_without_sinks_witness :
  Runtime.component_calls (snd (Runtime.run Observed.sources_only Observed.stray_output))
    = [Runtime.collect_sources Observed.sources_only] /\
  Runtime.receive_calls (snd (Runtime.run Observed.sources_only Observed.stray_output)) = [] /\
  Rx.subscribed (fst (Runtime.run Observed.sources_only Observed.stray_output)) = [].
Proof.
  apply (@run_without_sinks nat nat Observed.sources_only Observed.stray_output).
  intros key drv Hin. apply list_elem_of_In in Hin. simpl in Hin.
  destruct Hin as [Heq|[Heq|[]]]; injection Heq as <- <-; reflexivity.
Defined.

(** ** More on the state loop *)

Section StateLoopFacts.
Import Rx Runtime.

Lemma scan_values_step {A B : Type} (f : B -> A -> B) (xs : list A) :
  forall (seed : B) (n : nat) (a : A),
    xs !! n = Some a ->
    exists b,
      (seed :: scan_values f seed xs) !! n = Some b /\
      (seed :: scan_values f seed xs) !! (Datatypes.S n) = Some (f b a).
Proof.
  induction xs as [|x xs IH]; intros seed n a Hn; [done|].
  destruct n as [|n]; simpl in *.
  - injection Hn as ->. by exists seed.
  - apply (IH (f seed x) n a Hn).
Qed.

(** X15. Each state the loop broadcasts after the first is the next
    reducer applied to the state broadcast just before it, so an identity
    reducer repeats that state; and the loop ends the way the inner
    [state] output ends. *)
Theorem stateful_state_steps :
  forall (S I O : Type) (initial : S)
    (component : Component (gmap string (SourceVal S I)) (gmap string (SinkVal S O)))
    (inputs : gmap string (SourceVal S I)) (state : Observable (Reducer S)),
    component (<["state"%string := StateIn NewSubject]> inputs) !! "state"%string = Some (StateOut state) ->
    exists w,
      stateful initial component inputs = Some w /\
      ending (loopback_feed w) = ending state /\
      (forall n r, emits state !! n = Some r ->
         exists s,
           emits (loopback_feed w) !! n = Some s /\
           emits (loopback_feed w) !! (Datatypes.S n) = Some (r s)) /\
      (forall n, emits state !! n = Some (fun s => s) ->
         emits (loopback_feed w) !! (Datatypes.S n) = emits (loopback_feed w) !! n).
Proof.
  intros S I O initial component inputs state Hstate.
  eexists. split; [by apply stateful_wired|]. simpl. split; [reflexivity|].
  split.
  - intros n r Hn.
    apply (scan_values_step (fun (s : S) (f : Reducer S) => f s) (emits state) initial n r Hn).
  - intros n Hn.
    destruct (scan_values_step (fun (s : S) (f : Reducer S) => f s) (emits state) initial n _ Hn)
      as (s & Hs & Hnext).
    transitivity (Some s); [exact Hnext|symmetry; exact Hs].
Qed.

End StateLoopFacts.

Lemma stateful_state_steps_witness :
  exists w,
    Runtime.stateful 0%Z Scenarios.scenario_component ∅ = Some w /\
    Rx.ending (Runtime.loopback_feed w) = Rx.Open /\
    Rx.emits (Runtime.loopback_feed w) !! 1 = Some 1%Z /\
    Rx.emits (Runtime.loopback_feed w) !! 2 = Some 2%Z.
Proof.
  destruct (stateful_state_steps Z unit nat 0%Z Scenarios.scenario_component ∅
              (Rx.mkObservable [fun x => (x + 1)%Z; fun x => (x * 2)%Z] Rx.Open))
    as (w & Hw & Hend & Hstep & _); [reflexivity|].
  exists w. split; [exact Hw|]. split; [exact Hend|].
  injection Hw as <-. split; reflexivity.
Defined.

(** ** More on the DOM driver *)

Section DimensionsFacts.
Import Rx Runtime Dom Observed.
Context {number : Type} `{EqDecision number}.
Context {Node MouseEvent : Type}.
Variable querySelector : string -> option Node.
Variable fromEvent : forall E : Type, Node -> string -> Observable E.
Variable clientWidth clientHeight : Node -> nat -> number.

Lemma same_size_spec (a b : Size2d number) : same_size a b = true <-> a = b.
Proof.
  unfold same_size. rewrite andb_true_iff, !bool_decide_eq_true.
  destruct a, b; simpl. split; [by intros [-> ->]|by intros [= -> ->]].
Qed.

Lemma neighbours_cons {A : Type} (a b : A) (xs : list A) :
  neighbours (a :: b :: xs) = (a, b) :: neighbours (b :: xs).
Proof. reflexivity. Qed.

Lemma distinct_values_neighbours {A : Type} (compare : A -> A -> bool) (xs : list A) :
  forall last_passed : option A,
    Forall (fun p => compare (fst p) (snd p) = false)
      (neighbours (distinct_values compare last_passed xs)) /\
    (forall k e, last_passed = Some k ->
       head (distinct_values compare last_passed xs) = Some e -> compare k e = false).
Proof.
  induction xs as [|x xs IH]; intros last_passed; simpl.
  - split; [constructor|]. intros k e _ He. discriminate He.
  - destruct (IH (Some x)) as [IHn IHh].
    assert (Forall (fun p => compare (fst p) (snd p) = false)
              (neighbours (x :: distinct_values compare (Some x) xs))) as Hpass.
    { destruct (distinct_values compare (Some x) xs) as [|e rest] eqn:Hrest; [constructor|].
      rewrite neighbours_cons. constructor; [|done]. simpl. by apply (IHh x e). }
    destruct last_passed as [k|]; [destruct (compare k x) eqn:Hk|].
    + apply IH.
    + split; [done|]. intros k' e [= <-] [= <-]. done.
    + split; [done|]. intros k' e Hk'. discriminate Hk'.
Qed.

Lemma distinct_values_length {A : Type} (compare : A -> A -> bool) (xs : list A) :
  forall last_passed, length (distinct_values compare last_passed xs) <= length xs.
Proof.
  induction xs as [|x xs IH]; intros last_passed; simpl; [done|].
  destruct last_passed as [k|]; [destruct (compare k x)|]; simpl.
  - specialize (IH (Some k)). lia.
  - specialize (IH (Some x)). lia.
  - specialize (IH (Some x)). lia.
Qed.

Lemma distinct_values_same {A : Type} (compare : A -> A -> bool) (k : A) (xs : list A) :
  Forall (fun x => compare k x = true) xs ->
  distinct_values compare (Some k) xs = [].
Proof.
  induction 1 as [|x xs Hx _ IH]; simpl; [done|]. by rewrite Hx.
Qed.

Lemma imap_all {A B : Type} (P : B -> Prop) (xs : list A) :
  forall f : nat -> A -> B, (forall n a, P (f n a)) -> Forall P (imap f xs).
Proof.
  induction xs as [|x xs IH]; intros f Hf; simpl; constructor; [apply Hf|].
  apply IH. intros n a. apply Hf.
Qed.

(** X16. For a selector that matches an element, [dimensions] warns about
    nothing and emits at most one size per sample, the first sample's
    size first, and never the same size twice in a row; it ends as the
    sampling stream ends. *)
Theorem dimensions_emits_changes_only :
  forall (selector : string) (node : Node) (U : Type) (sampleInterval : Observable U),
    querySelector selector = Some node ->
    snd (dimensions_impl querySelector clientWidth clientHeight U selector sampleInterval) = [] /\
    Forall (fun p => fst p <> snd p)
      (neighbours (emits (fst (dimensions_impl querySelector clientWidth clientHeight
                                 U selector sampleInterval)))) /\
    length (emits (fst (dimensions_impl querySelector clientWidth clientHeight
                          U selector sampleInterval)))
      <= length (emits sampleInterval) /\
    (emits sampleInterval <> [] ->
     head (emits (fst (dimensions_impl querySelector clientWidth clientHeight
                         U selector sampleInterval)))
       = Some {| width := clientWidth node 0; height := clientHeight node 0 |}) /\
    ending (fst (dimensions_impl querySelector clientWidth clientHeight
                   U selector sampleInterval)) = ending sampleInterval.
Proof.
  intros selector node U sampleInterval Hq. unfold dimensions_impl. rewrite Hq. simpl.
  split; [reflexivity|]. split; [|split; [|split; [|reflexivity]]].
  - eapply Forall_impl; [apply distinct_values_neighbours|].
    intros [a b] Hab Heq. simpl in *. apply same_size_spec in Heq. congruence.
  - etransitivity; [apply distinct_values_length|]. by rewrite length_imap.
  - destruct (emits sampleInterval) as [|u samples]; [done|]. reflexivity.
Qed.

(** X17. While the element keeps its size, [dimensions] emits that size
    once, at the first sample, and nothing after it. *)
Theorem dimensions_constant_size_once :
  forall (selector : string) (node : Node) (U : Type) (sampleInterval : Observable U)
    (w h : number),
    querySelector selector = Some node ->
    (forall n, clientWidth node n = w /\ clientHeight node n = h) ->
    emits sampleInterval <> [] ->
    emits (fst (dimensions_impl querySelector clientWidth clientHeight U selector sampleInterval))
      = [{| width := w; height := h |}].
Proof.
  intros selector node U sampleInterval w h Hq Hsize Hsamples.
  unfold dimensions_impl. rewrite Hq. simpl.
  destruct (emits sampleInterval) as [|u samples]; [done|]. simpl.
  destruct (Hsize 0) as [-> ->]. f_equal.
  apply distinct_values_same. apply imap_all. intros n a. simpl.
  destruct (Hsize (Datatypes.S n)) as [-> ->]. by apply same_size_spec.
Qed.

End DimensionsFacts.

Lemma dimensions_emits_changes_only_witness :
  Rx.emits (fst (Dom.dimensions_impl Observed.main_only Observed.growing_width
                   Observed.fixed_height nat "#main" Observed.three_samples))
    = [ {| Dom.width := 300%Z; Dom.height := 200%Z |};
        {| Dom.width := 320%Z; Dom.height := 200%Z |} ] /\
  Forall (fun p => fst p <> snd p)
    (Observed.neighbours
       (Rx.emits (fst (Dom.dimensions_impl Observed.main_only Observed.growing_width
                         Observed.fixed_height nat "#main" Observed.three_samples)))).
Proof.
  split; [reflexivity|].
  apply (@dimensions_emits_changes_only Z _ unit Observed.main_only
           Observed.growing_width Observed.fixed_height "#main"%string tt nat
           Observed.three_samples).
  reflexivity.
Defined.

Lemma dimensions_constant_size_once_witness :
  Rx.emits (fst (Dom.dimensions_impl Observed.main_only Observed.fixed_width
                   Observed.fixed_height nat "#main" Observed.three_samples))
    = [ {| Dom.width := 300%Z; Dom.height := 200%Z |} ].
Proof.
  apply (@dimensions_constant_size_once Z _ unit Observed.main_only
           Observed.fixed_width Observed.fixed_height "#main"%string tt nat
           Observed.three_samples 300%Z 200%Z).
  - reflexivity.
  - intros n. split; reflexivity.
  - discriminate.
Defined.

(** ** More on the canvas sink *)

Section ThrottleFacts.
Import Rx Runtime Drawing Canvas Observed.
Local Open Scope Z_scope.

Lemma throttle_values_spaced {A : Type} (duration : Time) (xs : list (Time * A)) :
  forall u : option Time,
    Forall (fun p => fst (fst p) + duration <= fst (snd p))
      (neighbours (throttle_values duration u xs)) /\
    (forall v e, u = Some v -> head (throttle_values duration u xs) = Some e -> v <= fst e).
Proof.
  induction xs as [|[t x] xs IH]; intros u; simpl.
  - split; [constructor|]. intros v e _ He. discriminate He.
  - destruct (IH (Some (t + duration))) as [IHn IHh].
    assert (Forall (fun p => fst (fst p) + duration <= fst (snd p))
              (neighbours ((t, x) :: throttle_values duration (Some (t + duration)) xs))) as Hpass.
    { destruct (throttle_values duration (Some (t + duration)) xs) as [|e rest] eqn:Hrest;
        [constructor|].
      rewrite neighbours_cons. constructor; [|done]. simpl. by apply (IHh (t + duration) e). }
    destruct u as [v|]; [destruct (Z.ltb_spec t v)|].
    + apply IH.
    + split; [done|]. intros v' e [= <-] [= <-]. done.
    + split; [done|]. intros v' e Hv'. discriminate Hv'.
Qed.

Lemma throttle_values_keeps_spaced {A : Type} (duration : Time) (xs : list (Time * A)) :
  forall u : option Time,
    Forall (fun p => fst (fst p) + duration <= fst (snd p)) (neighbours xs) ->
    (forall v e, u = Some v -> head xs = Some e -> v <= fst e) ->
    throttle_values duration u xs = xs.
Proof.
  induction xs as [|[t x] xs IH]; intros u Hspaced Hfree; simpl; [done|].
  assert (throttle_values duration (Some (t + duration)) xs = xs) as Hrest.
  { apply IH.
    - destruct xs as [|e xs]; [constructor|].
      rewrite neighbours_cons in Hspaced. by apply Forall_cons in Hspaced as [_ Hspaced].
    - intros v e [= <-] He. destruct xs as [|e' xs]; [done|]. injection He as ->.
      rewrite neighbours_cons in Hspaced. by apply Forall_cons in Hspaced as [Hgap _]. }
  rewrite Hrest. destruct u as [v|]; [|done].
  pose proof (Hfree v (t, x) eq_refl eq_refl) as Hv. simpl in Hv.
  destruct (Z.ltb_spec t v); [lia|done].
Qed.

Context {number style : Type}.
Variable animationFrame : Time -> Time.

(** X18. The canvas sink always renders the first Draw it is sent, at the
    animation frame that follows its arrival, and any two Draws it
    renders one after the other are at least a millisecond apart. *)
Theorem canvas_renders_first_and_spaced :
  forall (t : Time) (d : Draw number style) (rest : list (Time * Draw number style))
    (e : Ending),
    head (emits (rendered animationFrame (mkObservable ((t, d) :: rest) e)))
      = Some (animationFrame t, d) /\
    Forall (fun p => fst (fst p) + 1 <= fst (snd p))
      (neighbours (emits (rendered animationFrame (mkObservable ((t, d) :: rest) e)))) /\
    ending (rendered animationFrame (mkObservable ((t, d) :: rest) e)) = e.
Proof.
  intros t d rest e. split; [reflexivity|]. split; [|reflexivity].
  apply (proj1 (throttle_values_spaced 1
                  (emits (observeOn animationFrame (mkObservable ((t, d) :: rest) e))) None)).
Qed.

(** X19. When every Draw is delivered at least a millisecond after the
    one before it, one per animation frame say, the canvas sink drops
    none: it renders all of them, each at its frame. *)
Theorem canvas_drops_nothing_when_spaced :
  forall draws : Timed (Draw number style),
    Forall (fun p => animationFrame (fst (fst p)) + 1 <= animationFrame (fst (snd p)))
      (neighbours (emits draws)) ->
    rendered animationFrame draws = observeOn animationFrame draws /\
    List.map snd (emits (rendered animationFrame draws)) = List.map snd (emits draws).
Proof.
  intros draws Hspaced.
  assert (rendered animationFrame draws = observeOn animationFrame draws) as Hall.
  { unfold rendered, throttleTime. destruct draws as [xs e]. unfold observeOn, map. simpl.
    f_equal. apply throttle_values_keeps_spaced; [|intros v e' Hv; discriminate Hv].
    simpl in Hspaced. clear e.
    induction xs as [|[t1 d1] [|[t2 d2] xs] IH]; simpl; try constructor.
    - rewrite neighbours_cons in Hspaced. by apply Forall_cons in Hspaced as [Hgap _].
    - apply IH. rewrite neighbours_cons in Hspaced.
      by apply Forall_cons in Hspaced as [_ Hspaced]. }
  split; [exact Hall|]. rewrite Hall. unfold observeOn, map. simpl.
  by rewrite List.map_map.
Qed.

End ThrottleFacts.

Lemma canvas_drops_nothing_when_spaced_witness :
  Rx.emits (Canvas.rendered Scenarios.frame16 Observed.spaced_draws) =
    [(16%Z, Drawing.clearRect 0%Z 0%Z 10%Z 10%Z); (32%Z, Drawing.fillRect 1%Z 1%Z 2%Z 2%Z)] /\
  Canvas.rendered Scenarios.frame16 Observed.spaced_draws
    = Rx.observeOn Scenarios.frame16 Observed.spaced_draws.
Proof.
  split; [reflexivity|].
  apply (@canvas_drops_nothing_when_spaced Z string Scenarios.frame16 Observed.spaced_draws).
  vm_compute. repeat constructor; discriminate.
Defined.
